(** * Environment validation and configuration resolution

    A shallow embedding of [next-app/scripts/check-env.js] (the environment
    validator) and of [next-app/next.config.ts] (the build configuration),
    with the properties the specification states about them.

    - [process.env] is a finite map from names to strings ([gmap string
      string]); an unset variable is a failed lookup.
    - Strings are byte strings holding the UTF-8 text of the source.
    - The validator is a script with effects (console output, the
      [hasErrors] flag, the exit code): it is written in a small state monad
      over the process state.
    - The configuration object is a record computed from [process.env]. *)

From Stdlib Require Import String Ascii List ZArith Lia.
From stdpp Require Import gmap strings list.

Local Open Scope string_scope.
Local Open Scope list_scope.

(** ** JavaScript values read from the environment *)

Module JS.

(** The newline character written [\n] in the source's string literals. *)
Definition nl : string := String "010"%char "".

(** Truthiness of [process.env[name]]: [undefined] and the empty string
    are falsy, every other string is truthy. *)
Definition truthy (v : option string) : bool :=
  match v with
  | None => false
  | Some "" => false
  | Some (String _ _) => true
  end.

(** [v || dflt] for a string-or-undefined [v]. *)
Definition or_else (v : option string) (dflt : string) : string :=
  match v with
  | Some s => if truthy v then s else dflt
  | None => dflt
  end.

(** [v === lit] for a string-or-undefined [v] and a string literal. *)
Definition strict_eq (v : option string) (lit : string) : bool :=
  match v with
  | Some s => String.eqb s lit
  | None => false
  end.

(** The value of an [async] function call. *)
Inductive Promise (A : Type) : Type :=
| Fulfilled (v : A)
| Rejected (reason : string).
Arguments Fulfilled {A} v.
Arguments Rejected {A} reason.

End JS.

(** ** The validator script, [scripts/check-env.js] *)

Module CheckEnv.
Import JS.

Definition requiredEnvVars : list string :=
  [ "NODE_ENV";
    "NEXT_PUBLIC_APP_ENV";
    "NEXT_PUBLIC_API_URL";
    "DATABASE_URL";
    "NEXTAUTH_SECRET";
    "NEXTAUTH_URL" ].

Definition optionalEnvVars : list string :=
  [ "NEXT_PUBLIC_STRIPE_PUBLIC_KEY";
    "STRIPE_SECRET_KEY";
    "AWS_REGION";
    "LOG_LEVEL" ].

(** *** Process state and the script monad *)

Inductive stream : Set := Stdout | Stderr.

(** What the script can change: the lines written to the console, in
    order, and the module-level variable [hasErrors]. *)
Record process : Type := Process {
  console : list (stream * string);
  hasErrors : bool
}.

Definition M (A : Type) : Type := process -> A * process.

Definition ret {A} (a : A) : M A := fun p => (a, p).

Definition bind {A B} (m : M A) (k : A -> M B) : M B :=
  fun p => let '(a, p') := m p in k a p'.

Declare Scope script_scope.
Delimit Scope script_scope with script.
Bind Scope script_scope with M.
Notation "x ← m ; k" := (bind m (fun x => k))
  (at level 20, m at level 100, k at level 200, only parsing)
  : script_scope.
Notation "m ;; k" := (bind m (fun _ => k))
  (at level 100, k at level 200, only parsing, right associativity)
  : script_scope.

Definition console_log (s : string) : M unit :=
  fun p => (tt, Process (console p ++ [(Stdout, s)]) (hasErrors p)).

Definition console_error (s : string) : M unit :=
  fun p => (tt, Process (console p ++ [(Stderr, s)]) (hasErrors p)).

Definition set_hasErrors (b : bool) : M unit :=
  fun p => (tt, Process (console p) b).

Definition get_hasErrors : M bool :=
  fun p => (hasErrors p, p).

(** [process.exit(code)] ends the script; its code is the script's
    result. *)
Definition process_exit (code : Z) : M Z := ret code.

(** [Array.prototype.forEach]: the callback runs on every element, in
    index order. *)
Fixpoint forEach {A} (l : list A) (f : A -> M unit) : M unit :=
  match l with
  | [] => ret tt
  | x :: l' => (f x ;; forEach l' f)%script
  end.

(** *** The script *)

Definition set_line (varName : string) : string :=
  "✅ " +:+ varName +:+ ": SET".
Definition missing_line (varName : string) : string :=
  "❌ " +:+ varName +:+ ": MISSING".
Definition not_set_line (varName : string) : string :=
  "⚠️  " +:+ varName +:+ ": NOT SET".

Definition check_required (env : gmap string string) (varName : string)
  : M unit :=
  if truthy (env !! varName) then
    console_log (set_line varName)
  else
    (console_log (missing_line varName) ;;
     set_hasErrors true)%script.

Definition check_optional (env : gmap string string) (varName : string)
  : M unit :=
  if truthy (env !! varName) then
    console_log (set_line varName)
  else
    console_log (not_set_line varName).

Definition check_env (env : gmap string string) : M Z :=
  (console_log ("🔍 Checking environment variables..." +:+ nl) ;;
  set_hasErrors false ;;
  console_log "Required variables:" ;;
  forEach requiredEnvVars (check_required env) ;;
  console_log (nl +:+ "Optional variables:") ;;
  forEach optionalEnvVars (check_optional env) ;;
  console_log (nl +:+ "---") ;;
  console_log ("Environment: "
               +:+ or_else (env !! "NEXT_PUBLIC_APP_ENV") "NOT SET") ;;
  console_log ("Node Environment: "
               +:+ or_else (env !! "NODE_ENV") "NOT SET") ;;
  errs ← get_hasErrors ;
  if errs then
    console_error (nl +:+ "❌ Some required environment variables are missing!") ;;
    process_exit 1
  else
    console_log (nl +:+ "✅ All required environment variables are set!") ;;
    process_exit 0)%script.

(** A fresh process: nothing printed yet. *)
Definition start : process := Process [] false.

Definition exit_code (env : gmap string string) : Z :=
  fst (check_env env start).

Definition final (env : gmap string string) : process :=
  snd (check_env env start).

(** *** The report read back from the output

    The specification speaks of [validate(env)], a pair of a flag [allOk]
    and a report of [(name, status)] entries.  The script has no such
    value: the flag is the negation of [hasErrors] when the script ends,
    and the report is what the script printed on standard output, one
    status line per variable.  [parse_line] reads a status line back. *)

Inductive status : Set := SET | MISSING | NOT_SET.

Fixpoint strip_prefix (pre s : string) : option string :=
  match pre with
  | "" => Some s
  | String a pre' =>
      match s with
      | "" => None
      | String b s' =>
          if Ascii.eqb a b then strip_prefix pre' s' else None
      end
  end.

Fixpoint strip_suffix (suf s : string) : option string :=
  if String.eqb s suf then Some ""
  else match s with
       | "" => None
       | String a s' => String a <$> strip_suffix suf s'
       end.

Definition entry (pre suf : string) (st : status) (l : string)
  : option (string * status) :=
  r ← strip_prefix pre l;
  n ← strip_suffix suf r;
  Some (n, st).

Definition parse_line (l : string) : option (string * status) :=
  match entry "✅ " ": SET" SET l with
  | Some e => Some e
  | None =>
      match entry "❌ " ": MISSING" MISSING l with
      | Some e => Some e
      | None => entry "⚠️  " ": NOT SET" NOT_SET l
      end
  end.

Definition stdout (p : process) : list string :=
  omap (fun '(s, l) => match s with Stdout => Some l | Stderr => None end)
       (console p).

Definition stderr (p : process) : list string :=
  omap (fun '(s, l) => match s with Stderr => Some l | Stdout => None end)
       (console p).

Record validation : Type := Validation {
  allOk : bool;
  report : list (string * status)
}.

Definition validate (env : gmap string string) : validation :=
  let p := final env in
  Validation (negb (hasErrors p)) (omap parse_line (stdout p)).

(** *** What a run is expected to print

    The status of one variable as the specification words it, the line
    that reports it, and the whole transcript of a run. *)

Definition is_set (env : gmap string string) (name : string) : bool :=
  truthy (env !! name).

Definition required_status (env : gmap string string) (name : string)
  : status := if is_set env name then SET else MISSING.

Definition optional_status (env : gmap string string) (name : string)
  : status := if is_set env name then SET else NOT_SET.

Definition required_line (env : gmap string string) (name : string)
  : string := if is_set env name then set_line name else missing_line name.

Definition optional_line (env : gmap string string) (name : string)
  : string := if is_set env name then set_line name else not_set_line name.

(** Some required variable is unset or empty. *)
Definition some_missing (env : gmap string string) (names : list string)
  : bool := existsb (fun n => negb (is_set env n)) names.

Definition is_missing (e : string * status) : bool :=
  match snd e with MISSING => true | _ => false end.

Definition on (s : stream) (lines : list string) : list (stream * string) :=
  map (pair s) lines.

Definition transcript (env : gmap string string) : list (stream * string) :=
  on Stdout ["🔍 Checking environment variables..." +:+ nl;
             "Required variables:"]
  ++ on Stdout (map (required_line env) requiredEnvVars)
  ++ on Stdout [nl +:+ "Optional variables:"]
  ++ on Stdout (map (optional_line env) optionalEnvVars)
  ++ on Stdout [nl +:+ "---";
                "Environment: "
                +:+ or_else (env !! "NEXT_PUBLIC_APP_ENV") "NOT SET";
                "Node Environment: "
                +:+ or_else (env !! "NODE_ENV") "NOT SET"]
  ++ (if some_missing env requiredEnvVars
      then on Stderr
             [nl +:+ "❌ Some required environment variables are missing!"]
      else on Stdout
             [nl +:+ "✅ All required environment variables are set!"]).


(** The environment of the specification's first scenario: every
    required variable set, no optional one. *)
Definition scenario_env : gmap string string :=
  <["NODE_ENV" := "production"]>
  (<["NEXT_PUBLIC_APP_ENV" := "production"]>
  (<["NEXT_PUBLIC_API_URL" := "https://api.x.com"]>
  (<["DATABASE_URL" := "postgres://..."]>
  (<["NEXTAUTH_SECRET" := "s"]>
  (<["NEXTAUTH_URL" := "https://x.com"]> ∅))))).

(** The scenario with DATABASE_URL taken out. *)
Definition env_DATABASE_URL_unset : gmap string string :=
  delete "DATABASE_URL" scenario_env.

(** The line the script prints for a variable in a given status. *)
Definition status_line (st : status) (varName : string) : string :=
  match st with
  | SET => set_line varName
  | MISSING => missing_line varName
  | NOT_SET => not_set_line varName
  end.

(** The two closing messages of the script. *)
Definition failure_message : string :=
  nl +:+ "❌ Some required environment variables are missing!".
Definition success_message : string :=
  nl +:+ "✅ All required environment variables are set!".

End CheckEnv.

(** ** The build configuration, [next.config.ts] *)

Module NextConfig.
Import JS.

Record Header : Type := { key : string; value : string }.

(** One element of the array [headers()] returns: a route pattern and the
    response headers attached to the routes it matches. *)
Module Rule.
Record t : Type := { source : string; headers : list Header }.
End Rule.

Record Env : Type := { APP_ENV : string }.

Record Images : Type := { domains : list string }.

(** The object literal [nextConfig].  [output] is a string or
    [undefined].  [headers] is an [async] method: the field holds the
    promise a call returns, the environment being the one the object was
    built in. *)
Record t : Type := {
  env : Env;
  reactStrictMode : bool;
  output : option string;
  images : Images;
  headers : Promise (list Rule.t)
}.

Definition nextConfig (process_env : gmap string string) : t :=
  {| env :=
       {| APP_ENV :=
            or_else (process_env !! "NEXT_PUBLIC_APP_ENV") "development" |};
     reactStrictMode := true;
     output :=
       if strict_eq (process_env !! "NEXT_PUBLIC_APP_ENV") "production"
       then Some "standalone" else None;
     images :=
       {| domains :=
            if strict_eq (process_env !! "NEXT_PUBLIC_APP_ENV") "production"
            then ["yourapp.com"; "cdn.yourapp.com"]
            else ["localhost"] |};
     headers :=
       if strict_eq (process_env !! "NEXT_PUBLIC_APP_ENV") "production"
       then
         Fulfilled
           [ {| Rule.source := "/:path*";
                Rule.headers :=
                  [ {| key := "X-DNS-Prefetch-Control";
                       value := "on" |};
                    {| key := "Strict-Transport-Security";
                       value := "max-age=63072000; includeSubDomains; preload" |};
                    {| key := "X-Content-Type-Options";
                       value := "nosniff" |};
                    {| key := "X-Frame-Options";
                       value := "DENY" |} ] |} ]
       else Fulfilled [] |}.

(** The method [headers()] by itself.  It reads [process.env] when it is
    called, not when the object is built: its result is a function of the
    environment at the time of the call. *)
Definition headers_method (env_at_call : gmap string string)
  : Promise (list Rule.t) :=
  if strict_eq (env_at_call !! "NEXT_PUBLIC_APP_ENV") "production"
  then
    Fulfilled
      [ {| Rule.source := "/:path*";
           Rule.headers :=
             [ {| key := "X-DNS-Prefetch-Control";
                  value := "on" |};
               {| key := "Strict-Transport-Security";
                  value := "max-age=63072000; includeSubDomains; preload" |};
               {| key := "X-Content-Type-Options";
                  value := "nosniff" |};
               {| key := "X-Frame-Options";
                  value := "DENY" |} ] |} ]
  else Fulfilled [].

(** *** The resolved configuration of the specification

    [resolve] takes the discriminator alone, the value of
    [NEXT_PUBLIC_APP_ENV] or its absence, and returns the three fields the
    specification names.  It is [nextConfig] run in the environment that
    holds the discriminator and nothing else, seen through [view]. *)

Inductive OutputMode : Set := standard | standalone.

Record ResolvedConfiguration : Type := {
  outputMode : OutputMode;
  imageDomains : gset string;
  securityHeaders : list (string * string)
}.

Definition env_of (discriminator : option string) : gmap string string :=
  match discriminator with
  | Some s => {[ "NEXT_PUBLIC_APP_ENV" := s ]}
  | None => ∅
  end.

(** An [output] left [undefined] is the build tool's standard output. *)
Definition mode_of (o : option string) : OutputMode :=
  match o with
  | Some s => if String.eqb s "standalone" then standalone else standard
  | None => standard
  end.

(** The headers of every rule, in order, as name and value pairs. *)
Definition pairs_of (h : Promise (list Rule.t)) : list (string * string) :=
  match h with
  | Fulfilled rules =>
      flat_map (fun r => map (fun h => (key h, value h)) (Rule.headers r))
               rules
  | Rejected _ => []
  end.

Definition view (c : t) : ResolvedConfiguration :=
  {| outputMode := mode_of (output c);
     imageDomains := list_to_set (domains (images c));
     securityHeaders := pairs_of (headers c) |}.

Definition resolve (discriminator : option string)
  : ResolvedConfiguration :=
  view (nextConfig (env_of discriminator)).

End NextConfig.

(** * Properties *)

Import JS CheckEnv NextConfig.

(** ** Values read from the environment *)

Lemma truthy_spec (v : option string) :
  truthy v = true ↔ ∃ s, v = Some s ∧ s ≠ "".
Proof.
  split.
  - destruct v as [[|a s]|]; simpl; try discriminate.
    intros _. exists (String a s). split; [reflexivity | discriminate].
  - intros (s & -> & Hs). destruct s; [contradiction | reflexivity].
Qed.

Lemma truthy_false (v : option string) :
  truthy v = false ↔ v = None ∨ v = Some "".
Proof.
  destruct v as [[|a s]|]; simpl; split; intros H; auto;
    try discriminate; destruct H as [H|H]; discriminate.
Qed.

Lemma strict_eq_spec (v : option string) (lit : string) :
  strict_eq v lit = true ↔ v = Some lit.
Proof.
  destruct v as [s|]; simpl.
  - rewrite String.eqb_eq. split; congruence.
  - split; discriminate.
Qed.

Lemma strict_eq_ne (v : option string) (lit : string) :
  v ≠ Some lit → strict_eq v lit = false.
Proof.
  intros H. destruct (strict_eq v lit) eqn:E; [|reflexivity].
  apply strict_eq_spec in E. contradiction.
Qed.

(** ** Reading status lines back *)

Section Lines.

Lemma strip_prefix_app (pre s : string) :
  strip_prefix pre (pre +:+ s) = Some s.
Proof.
  induction pre as [|a pre IH]; simpl; [reflexivity|].
  now rewrite Ascii.eqb_refl.
Qed.

Lemma strip_suffix_unfold (suf s : string) :
  strip_suffix suf s =
  if String.eqb s suf then Some ""
  else match s with
       | "" => None
       | String a s' => String a <$> strip_suffix suf s'
       end.
Proof. destruct s; reflexivity. Qed.

Lemma length_app (s t : string) :
  String.length (s +:+ t) = String.length s + String.length t.
Proof. induction s as [|a s IH]; simpl; [reflexivity | now rewrite IH]. Qed.

Lemma strip_suffix_app (suf n : string) :
  strip_suffix suf (n +:+ suf) = Some n.
Proof.
  induction n as [|a n IH]; rewrite strip_suffix_unfold.
  - simpl. now rewrite String.eqb_refl.
  - destruct (String.eqb (String a n +:+ suf) suf) eqn:E.
    + apply String.eqb_eq in E.
      apply (f_equal String.length) in E.
      rewrite length_app in E. simpl in E. lia.
    + simpl. simpl in IH. now rewrite IH.
Qed.

Lemma entry_app (pre suf : string) (st : status) (n : string) :
  entry pre suf st (pre +:+ n +:+ suf) = Some (n, st).
Proof.
  unfold entry. rewrite strip_prefix_app. simpl.
  now rewrite strip_suffix_app.
Qed.

Lemma parse_set_line (n : string) : parse_line (set_line n) = Some (n, SET).
Proof. unfold parse_line, set_line. now rewrite entry_app. Qed.

Lemma parse_missing_line (n : string) :
  parse_line (missing_line n) = Some (n, MISSING).
Proof.
  unfold parse_line, missing_line.
  rewrite (entry_app "❌ "). reflexivity.
Qed.

Lemma parse_not_set_line (n : string) :
  parse_line (not_set_line n) = Some (n, NOT_SET).
Proof.
  unfold parse_line, not_set_line.
  rewrite (entry_app "⚠️  "). reflexivity.
Qed.

End Lines.

(** ** Running the script *)

Section Run.
Variable env : gmap string string.

Lemma forEach_required (names : list string) (p : process) :
  forEach names (check_required env) p =
  (tt, Process (console p ++ on Stdout (map (required_line env) names))
               (hasErrors p || some_missing env names)).
Proof.
  revert p. induction names as [|n names IH]; intros [c e].
  - simpl. unfold ret. now rewrite app_nil_r, orb_false_r.
  - cbn [forEach]. unfold bind, check_required, required_line.
    cbn [some_missing existsb map on]. unfold is_set.
    destruct (truthy (env !! n)); cbn; rewrite IH; cbn;
      rewrite <- app_assoc; cbn.
    + reflexivity.
    + now rewrite orb_true_r.
Qed.

Lemma forEach_optional (names : list string) (p : process) :
  forEach names (check_optional env) p =
  (tt, Process (console p ++ on Stdout (map (optional_line env) names))
               (hasErrors p)).
Proof.
  revert p. induction names as [|n names IH]; intros [c e].
  - simpl. unfold ret. now rewrite app_nil_r.
  - cbn [forEach]. unfold bind, check_optional, optional_line.
    cbn [map on]. unfold is_set.
    destruct (truthy (env !! n)); cbn; rewrite IH; cbn;
      rewrite <- app_assoc; reflexivity.
Qed.

(** The script run from any process state: it appends [transcript env] to
    what was printed before, leaves [hasErrors] set exactly when a
    required variable is missing, and exits with 1 in that case and with
    0 otherwise. *)
Lemma check_env_run (p : process) :
  check_env env p =
  (if some_missing env requiredEnvVars then 1%Z else 0%Z,
   Process (console p ++ transcript env)
           (some_missing env requiredEnvVars)).
Proof.
  unfold check_env, bind, console_log, console_error, set_hasErrors,
    get_hasErrors, process_exit, ret.
  cbn [console hasErrors].
  rewrite forEach_required. cbn [console hasErrors].
  rewrite forEach_optional. cbn [console hasErrors orb].
  unfold transcript.
  destruct (some_missing env requiredEnvVars);
    cbn [on map console hasErrors]; rewrite <- !app_assoc; reflexivity.
Qed.

End Run.

(** ** The flag and the report of a run *)

Section Report.
Variable env : gmap string string.

Lemma some_missing_false (names : list string) :
  some_missing env names = false ↔ ∀ n, n ∈ names → is_set env n = true.
Proof.
  induction names as [|m names IH]; simpl.
  - split; [intros _ n Hn; inversion Hn | reflexivity].
  - rewrite orb_false_iff, negb_false_iff, IH. split.
    + intros [Hm Hrest] n Hn. apply elem_of_cons in Hn as [->|Hn]; auto.
    + intros H. split; [apply H; left | intros n Hn; apply H; now right].
Qed.

Lemma some_missing_true (names : list string) :
  some_missing env names = true ↔ ∃ n, n ∈ names ∧ is_set env n = false.
Proof.
  induction names as [|m names IH]; simpl.
  - split; [discriminate | intros (n & Hn & _); inversion Hn].
  - rewrite orb_true_iff, negb_true_iff, IH. split.
    + intros [Hm|(n & Hn & Hf)].
      * exists m. split; [left | assumption].
      * exists n. split; [now right | assumption].
    + intros (n & Hn & Hf). apply elem_of_cons in Hn as [->|Hn]; eauto.
Qed.

Lemma hasErrors_final :
  hasErrors (final env) = some_missing env requiredEnvVars.
Proof. unfold final. now rewrite check_env_run. Qed.

Lemma console_final : console (final env) = transcript env.
Proof. unfold final. now rewrite check_env_run. Qed.

Lemma exit_code_run :
  exit_code env = if some_missing env requiredEnvVars then 1%Z else 0%Z.
Proof. unfold exit_code. now rewrite check_env_run. Qed.

Lemma allOk_validate :
  allOk (validate env) = negb (some_missing env requiredEnvVars).
Proof. unfold validate. cbn [allOk]. now rewrite hasErrors_final. Qed.

Lemma stdout_app (c1 c2 : list (stream * string)) (e1 e2 e3 : bool) :
  stdout (Process (c1 ++ c2) e1) =
  stdout (Process c1 e2) ++ stdout (Process c2 e3).
Proof. unfold stdout. cbn [console]. apply omap_app. Qed.

Lemma stdout_on_Stdout (lines : list string) (e : bool) :
  stdout (Process (on Stdout lines) e) = lines.
Proof.
  unfold stdout, on. cbn [console].
  induction lines as [|l lines IH]; [reflexivity|].
  cbn. now rewrite IH.
Qed.

Lemma stdout_on_Stderr (lines : list string) (e : bool) :
  stdout (Process (on Stderr lines) e) = [].
Proof.
  unfold stdout, on. cbn [console].
  induction lines as [|l lines IH]; [reflexivity|].
  cbn. now rewrite IH.
Qed.

(** Standard output of a run: the fixed lines, with one status line per
    required name and one per optional name in between. *)
Lemma stdout_final :
  stdout (final env) =
  ["🔍 Checking environment variables..." +:+ nl; "Required variables:"]
  ++ map (required_line env) requiredEnvVars
  ++ [nl +:+ "Optional variables:"]
  ++ map (optional_line env) optionalEnvVars
  ++ [nl +:+ "---";
      "Environment: " +:+ or_else (env !! "NEXT_PUBLIC_APP_ENV") "NOT SET";
      "Node Environment: " +:+ or_else (env !! "NODE_ENV") "NOT SET"]
  ++ (if some_missing env requiredEnvVars then []
      else [nl +:+ "✅ All required environment variables are set!"]).
Proof.
  pose proof console_final as Hc.
  destruct (final env) as [c e]. cbn [console] in Hc. subst c.
  unfold transcript.
  rewrite !(stdout_app _ _ e e e), !stdout_on_Stdout.
  destruct (some_missing env requiredEnvVars).
  - now rewrite stdout_on_Stderr.
  - now rewrite stdout_on_Stdout.
Qed.

Lemma omap_cons_Some {A B} (f : A → option B) (x : A) (y : B)
      (l : list A) :
  f x = Some y → omap f (x :: l) = y :: omap f l.
Proof. intros H. simpl. now rewrite H. Qed.

Lemma parse_required_lines (names : list string) :
  omap parse_line (map (required_line env) names) =
  map (fun n => (n, required_status env n)) names.
Proof.
  induction names as [|n names IH]; [reflexivity|].
  cbn [map]. rewrite (omap_cons_Some _ _ (n, required_status env n)), IH;
    [reflexivity|].
  unfold required_line, required_status.
  destruct (is_set env n);
    [apply parse_set_line | apply parse_missing_line].
Qed.

Lemma parse_optional_lines (names : list string) :
  omap parse_line (map (optional_line env) names) =
  map (fun n => (n, optional_status env n)) names.
Proof.
  induction names as [|n names IH]; [reflexivity|].
  cbn [map]. rewrite (omap_cons_Some _ _ (n, optional_status env n)), IH;
    [reflexivity|].
  unfold optional_line, optional_status.
  destruct (is_set env n);
    [apply parse_set_line | apply parse_not_set_line].
Qed.

Lemma report_validate :
  report (validate env) =
  map (fun n => (n, required_status env n)) requiredEnvVars
  ++ map (fun n => (n, optional_status env n)) optionalEnvVars.
Proof.
  unfold validate. cbn [report]. rewrite stdout_final.
  rewrite !omap_app, parse_required_lines, parse_optional_lines.
  destruct (some_missing env requiredEnvVars); cbn [omap app];
    change (parse_line ("🔍 Checking environment variables..." +:+ nl))
      with (@None (string * status));
    now rewrite app_nil_r.
Qed.

Lemma missing_of_required (names : list string) :
  map fst (List.filter is_missing
             (map (fun n => (n, required_status env n)) names)) =
  List.filter (fun n => negb (is_set env n)) names.
Proof.
  induction names as [|n names IH]; [reflexivity|].
  cbn [map List.filter]. unfold is_missing at 1, required_status at 1.
  cbn [snd]. destruct (is_set env n); cbn; now rewrite IH.
Qed.

Lemma missing_of_optional (names : list string) :
  List.filter is_missing
    (map (fun n => (n, optional_status env n)) names) = [].
Proof.
  induction names as [|n names IH]; [reflexivity|].
  cbn [map List.filter]. unfold is_missing at 1, optional_status at 1.
  cbn [snd]. now destruct (is_set env n).
Qed.

End Report.

(** ** The validator: flag, report and exit code *)

Section Agreement.
Variables env env' : gmap string string.

Lemma some_missing_ext (names : list string) :
  (∀ n, n ∈ names → env !! n = env' !! n) →
  some_missing env names = some_missing env' names.
Proof.
  induction names as [|m names IH]; intros H; [reflexivity|].
  cbn [some_missing existsb]. unfold is_set.
  rewrite (H m) by left.
  f_equal. apply IH. intros n Hn. apply H. now right.
Qed.

Lemma required_line_ext (names : list string) :
  (∀ n, n ∈ names → env !! n = env' !! n) →
  map (required_line env) names = map (required_line env') names.
Proof.
  induction names as [|m names IH]; intros H; [reflexivity|].
  cbn [map]. unfold required_line at 1 3, is_set.
  rewrite (H m) by left.
  f_equal. apply IH. intros n Hn. apply H. now right.
Qed.

Lemma optional_line_ext (names : list string) :
  (∀ n, n ∈ names → env !! n = env' !! n) →
  map (optional_line env) names = map (optional_line env') names.
Proof.
  induction names as [|m names IH]; intros H; [reflexivity|].
  cbn [map]. unfold optional_line at 1 3, is_set.
  rewrite (H m) by left.
  f_equal. apply IH. intros n Hn. apply H. now right.
Qed.

(** The script reads the required and the optional names and nothing
    else. *)
Lemma check_env_ext (p : process) :
  (∀ n, n ∈ requiredEnvVars ++ optionalEnvVars → env !! n = env' !! n) →
  check_env env p = check_env env' p.
Proof.
  intros H.
  assert (Hreq : ∀ n, n ∈ requiredEnvVars → env !! n = env' !! n)
    by (intros n Hn; apply H, elem_of_app; now left).
  assert (Hopt : ∀ n, n ∈ optionalEnvVars → env !! n = env' !! n)
    by (intros n Hn; apply H, elem_of_app; now right).
  rewrite !check_env_run. unfold transcript.
  rewrite (some_missing_ext _ Hreq), (required_line_ext _ Hreq),
    (optional_line_ext _ Hopt).
  rewrite (Hreq "NEXT_PUBLIC_APP_ENV"), (Hreq "NODE_ENV");
    [reflexivity | unfold requiredEnvVars; set_solver..].
Qed.

End Agreement.

Lemma required_not_optional (n : string) :
  n ∈ requiredEnvVars → n ∉ optionalEnvVars.
Proof.
  unfold requiredEnvVars, optionalEnvVars. intros Hn Ho.
  repeat (apply elem_of_cons in Hn as [->|Hn]);
    try (inversion Hn; fail);
    repeat (apply elem_of_cons in Ho as [Ho|Ho]; [discriminate Ho|]);
    inversion Ho.
Qed.

(** C1. For every environment, [validate(env).allOk] is true if and only if
    every name of the required list (NODE_ENV, NEXT_PUBLIC_APP_ENV,
    NEXT_PUBLIC_API_URL, DATABASE_URL, NEXTAUTH_SECRET, NEXTAUTH_URL) maps to
    a non-empty string; a required name that is absent or maps to the empty
    string makes [allOk] false. *)
Theorem validate_allOk_iff (env : gmap string string) :
  requiredEnvVars =
    ["NODE_ENV"; "NEXT_PUBLIC_APP_ENV"; "NEXT_PUBLIC_API_URL";
     "DATABASE_URL"; "NEXTAUTH_SECRET"; "NEXTAUTH_URL"]
  ∧ (allOk (validate env) = true ↔
       ∀ name, name ∈ requiredEnvVars →
               ∃ v, env !! name = Some v ∧ v ≠ "")
  ∧ (∀ name, name ∈ requiredEnvVars →
             env !! name = None ∨ env !! name = Some "" →
             allOk (validate env) = false).
Proof.
  split; [reflexivity|]. rewrite allOk_validate. split.
  - rewrite negb_true_iff, some_missing_false. unfold is_set.
    split; intros H name Hn; apply truthy_spec, H, Hn.
  - intros name Hn Hv. rewrite negb_false_iff, some_missing_true.
    exists name. split; [assumption|]. now apply truthy_false.
Qed.

Lemma validate_allOk_iff_witness :
  allOk (validate scenario_env) = true ∧ allOk (validate ∅) = false.
Proof.
  split.
  - apply (proj1 (proj2 (validate_allOk_iff scenario_env))).
    intros name Hn. unfold requiredEnvVars in Hn.
    repeat (apply elem_of_cons in Hn as [->|Hn]);
      try (inversion Hn; fail);
      (eexists; split; [vm_compute; reflexivity | discriminate]).
  - apply (proj2 (proj2 (validate_allOk_iff ∅)) "NODE_ENV").
    + unfold requiredEnvVars. apply list_elem_of_here.
    + left. reflexivity.
Defined.

(** C5. For every environment the validator checks every required name,
    missing ones included (it does not stop at the first), and the report
    holds exactly one entry per required and per optional name, in the
    declared order, with one MISSING entry per required name that is not
    set. *)
Theorem report_complete (env : gmap string string) :
  report (validate env) =
    map (fun n => (n, required_status env n)) requiredEnvVars
    ++ map (fun n => (n, optional_status env n)) optionalEnvVars
  ∧ map fst (report (validate env)) = requiredEnvVars ++ optionalEnvVars
  ∧ NoDup (map fst (report (validate env)))
  ∧ map fst (List.filter is_missing (report (validate env))) =
      List.filter (fun n => negb (truthy (env !! n))) requiredEnvVars.
Proof.
  rewrite report_validate. split; [reflexivity|].
  split; [|split].
  - rewrite map_app, !map_map. cbn [fst]. now rewrite !map_id.
  - rewrite map_app, !map_map. cbn [fst]. rewrite !map_id.
    apply (bool_decide_unpack _). vm_compute. exact I.
  - rewrite List.filter_app, missing_of_optional, app_nil_r.
    apply missing_of_required.
Qed.

(** C6. For every environment the validator ends with exit code 0 when
    [validate(env).allOk] is true, that is when every required name holds a
    non-empty string, and with exit code 1 otherwise, that is when some
    required name is unset or empty; setting, changing or removing optional
    variables never changes the exit code. *)
Theorem exit_code_spec (env : gmap string string) :
  (exit_code env = 0%Z ↔
     ∀ name, name ∈ requiredEnvVars → ∃ v, env !! name = Some v ∧ v ≠ "")
  ∧ (exit_code env = 1%Z ↔
     ∃ name, name ∈ requiredEnvVars
             ∧ (env !! name = None ∨ env !! name = Some ""))
  ∧ (allOk (validate env) = true → exit_code env = 0%Z)
  ∧ (allOk (validate env) = false → exit_code env = 1%Z)
  ∧ (∀ env' : gmap string string,
       (∀ name, name ∉ optionalEnvVars → env !! name = env' !! name) →
       exit_code env' = exit_code env).
Proof.
  refine (conj _ (conj _ (conj _ (conj _ _)))).
  - rewrite exit_code_run.
    destruct (some_missing env requiredEnvVars) eqn:E.
    + split; [discriminate|]. intros H.
      apply some_missing_true in E as (n & Hn & Hf).
      destruct (H n Hn) as (v & Hv & Hne).
      unfold is_set in Hf. rewrite Hv in Hf.
      destruct v; [contradiction | discriminate].
    + split; [|reflexivity]. intros _ n Hn.
      apply truthy_spec.
      now apply (proj1 (some_missing_false env requiredEnvVars) E).
  - rewrite exit_code_run.
    destruct (some_missing env requiredEnvVars) eqn:E.
    + split; [|reflexivity]. intros _.
      apply some_missing_true in E as (n & Hn & Hf).
      exists n. split; [assumption|]. now apply truthy_false.
    + split; [discriminate|]. intros (n & Hn & Hv).
      apply truthy_false in Hv.
      pose proof (proj1 (some_missing_false env requiredEnvVars) E n Hn)
        as Hs.
      unfold is_set in Hs. congruence.
  - rewrite exit_code_run, allOk_validate.
    now destruct (some_missing env requiredEnvVars).
  - rewrite exit_code_run, allOk_validate.
    now destruct (some_missing env requiredEnvVars).
  - intros env' H. rewrite !exit_code_run.
    rewrite (some_missing_ext env env'); [reflexivity|].
    intros n Hn. apply H. now apply required_not_optional.
Qed.

Lemma exit_code_spec_witness :
  exit_code scenario_env = 0%Z
  ∧ exit_code ∅ = 1%Z
  ∧ exit_code env_DATABASE_URL_unset = 1%Z
  ∧ exit_code (<["LOG_LEVEL" := "debug"]> env_DATABASE_URL_unset)
    = exit_code env_DATABASE_URL_unset.
Proof.
  refine (conj _ (conj _ (conj _ _))).
  - apply (proj1 (exit_code_spec scenario_env)).
    intros name Hn. unfold requiredEnvVars in Hn.
    repeat (apply elem_of_cons in Hn as [->|Hn]);
      try (inversion Hn; fail);
      (eexists; split; [vm_compute; reflexivity | discriminate]).
  - apply (proj1 (proj2 (exit_code_spec ∅))).
    exists "NODE_ENV". split.
    + unfold requiredEnvVars. apply list_elem_of_here.
    + left. reflexivity.
  - apply (proj1 (proj2 (exit_code_spec env_DATABASE_URL_unset))).
    exists "DATABASE_URL". split.
    + apply (bool_decide_unpack _). vm_compute. exact I.
    + left. vm_compute. reflexivity.
  - apply (proj2 (proj2 (proj2 (proj2
             (exit_code_spec env_DATABASE_URL_unset))))).
    intros name Hn. symmetry. apply lookup_insert_ne. intros <-.
    apply Hn. apply (bool_decide_unpack _). vm_compute. exact I.
Defined.

(** ** The build configuration *)

Section Config.

Lemma lookup_env_of (d : option string) :
  env_of d !! "NEXT_PUBLIC_APP_ENV" = d.
Proof.
  destruct d as [s|]; unfold env_of.
  - apply lookup_singleton_eq.
  - apply lookup_empty.
Qed.

(** The configuration reads one variable only. *)
Lemma nextConfig_discriminator (process_env : gmap string string) :
  nextConfig process_env =
  nextConfig (env_of (process_env !! "NEXT_PUBLIC_APP_ENV")).
Proof. unfold nextConfig. now rewrite lookup_env_of. Qed.

Lemma nextConfig_production (process_env : gmap string string) :
  process_env !! "NEXT_PUBLIC_APP_ENV" = Some "production" →
  nextConfig process_env =
  {| env := {| APP_ENV := "production" |};
     reactStrictMode := true;
     output := Some "standalone";
     images := {| domains := ["yourapp.com"; "cdn.yourapp.com"] |};
     headers :=
       Fulfilled
         [ {| Rule.source := "/:path*";
              Rule.headers :=
                [ {| key := "X-DNS-Prefetch-Control"; value := "on" |};
                  {| key := "Strict-Transport-Security";
                     value := "max-age=63072000; includeSubDomains; preload" |};
                  {| key := "X-Content-Type-Options"; value := "nosniff" |};
                  {| key := "X-Frame-Options"; value := "DENY" |} ] |} ] |}.
Proof. intros H. unfold nextConfig. rewrite H. reflexivity. Qed.

Lemma nextConfig_other (process_env : gmap string string) :
  process_env !! "NEXT_PUBLIC_APP_ENV" ≠ Some "production" →
  nextConfig process_env =
  {| env :=
       {| APP_ENV :=
            or_else (process_env !! "NEXT_PUBLIC_APP_ENV") "development" |};
     reactStrictMode := true;
     output := None;
     images := {| domains := ["localhost"] |};
     headers := Fulfilled [] |}.
Proof.
  intros H. unfold nextConfig. now rewrite (strict_eq_ne _ _ H).
Qed.

Lemma resolve_production :
  resolve (Some "production") =
  {| outputMode := standalone;
     imageDomains := list_to_set ["yourapp.com"; "cdn.yourapp.com"];
     securityHeaders :=
       [ ("X-DNS-Prefetch-Control", "on");
         ("Strict-Transport-Security",
          "max-age=63072000; includeSubDomains; preload");
         ("X-Content-Type-Options", "nosniff");
         ("X-Frame-Options", "DENY") ] |}.
Proof.
  unfold resolve.
  rewrite nextConfig_production by apply lookup_env_of. reflexivity.
Qed.

Lemma resolve_other (x : option string) :
  x ≠ Some "production" →
  resolve x =
  {| outputMode := standard;
     imageDomains := list_to_set ["localhost"];
     securityHeaders := [] |}.
Proof.
  intros H. unfold resolve.
  rewrite nextConfig_other by now rewrite lookup_env_of. reflexivity.
Qed.

Lemma localhost_set : list_to_set ["localhost"] =@{gset string} {[ "localhost" ]}.
Proof. cbn [list_to_set]. apply set_eq. set_solver. Qed.

(** The [env] block of the configuration is not one of the three resolved
    fields, and it does tell non-production discriminators apart. *)
Remark APP_ENV_varies :
  APP_ENV (env (nextConfig (env_of (Some "staging"))))
  ≠ APP_ENV (env (nextConfig (env_of None))).
Proof. vm_compute. discriminate. Qed.

End Config.

(** C2. [resolve("production").securityHeaders] is the four pairs
    (X-DNS-Prefetch-Control, on), (Strict-Transport-Security,
    max-age=63072000; includeSubDomains; preload), (X-Content-Type-Options,
    nosniff), (X-Frame-Options, DENY), in that order (the configuration
    attaches them to the one route pattern [/:path*]); for every
    discriminator other than "production", absent included, it is empty. *)
Theorem securityHeaders_spec :
  headers (nextConfig (env_of (Some "production"))) =
    Fulfilled
      [ {| Rule.source := "/:path*";
           Rule.headers :=
             [ {| key := "X-DNS-Prefetch-Control"; value := "on" |};
               {| key := "Strict-Transport-Security";
                  value := "max-age=63072000; includeSubDomains; preload" |};
               {| key := "X-Content-Type-Options"; value := "nosniff" |};
               {| key := "X-Frame-Options"; value := "DENY" |} ] |} ]
  ∧ securityHeaders (resolve (Some "production")) =
      [ ("X-DNS-Prefetch-Control", "on");
        ("Strict-Transport-Security",
         "max-age=63072000; includeSubDomains; preload");
        ("X-Content-Type-Options", "nosniff");
        ("X-Frame-Options", "DENY") ]
  ∧ ∀ x : option string,
      x ≠ Some "production" →
      headers (nextConfig (env_of x)) = Fulfilled []
      ∧ securityHeaders (resolve x) = [].
Proof.
  split; [|split].
  - now rewrite nextConfig_production by apply lookup_env_of.
  - now rewrite resolve_production.
  - intros x Hx. split.
    + now rewrite nextConfig_other by now rewrite lookup_env_of.
    + now rewrite resolve_other.
Qed.

Lemma securityHeaders_spec_witness :
  securityHeaders (resolve (Some "staging")) = []
  ∧ securityHeaders (resolve None) = [].
Proof.
  split.
  - apply (proj2 (proj2 securityHeaders_spec) (Some "staging")). discriminate.
  - apply (proj2 (proj2 securityHeaders_spec) None). discriminate.
Defined.

(** C3. [resolve("production").outputMode] is standalone; for every
    discriminator other than "production", absent included, the
    configuration leaves [output] undefined and the output mode is
    standard. *)
Theorem outputMode_spec :
  output (nextConfig (env_of (Some "production"))) = Some "standalone"
  ∧ outputMode (resolve (Some "production")) = standalone
  ∧ ∀ x : option string,
      x ≠ Some "production" →
      output (nextConfig (env_of x)) = None
      ∧ outputMode (resolve x) = standard.
Proof.
  split; [|split].
  - now rewrite nextConfig_production by apply lookup_env_of.
  - now rewrite resolve_production.
  - intros x Hx. split.
    + now rewrite nextConfig_other by now rewrite lookup_env_of.
    + now rewrite resolve_other.
Qed.

Lemma outputMode_spec_witness :
  outputMode (resolve (Some "staging")) = standard
  ∧ outputMode (resolve None) = standard.
Proof.
  split.
  - apply (proj2 (proj2 outputMode_spec) (Some "staging")). discriminate.
  - apply (proj2 (proj2 outputMode_spec) None). discriminate.
Defined.

(** C4. [resolve(d).imageDomains] is the set of "yourapp.com" and
    "cdn.yourapp.com" when the discriminator is "production", and the set
    of "localhost" alone for every other discriminator, absent included. *)
Theorem imageDomains_spec (d : option string) :
  (d = Some "production" →
   domains (images (nextConfig (env_of d))) = ["yourapp.com"; "cdn.yourapp.com"]
   ∧ imageDomains (resolve d) = {[ "yourapp.com"; "cdn.yourapp.com" ]})
  ∧ (d ≠ Some "production" →
     domains (images (nextConfig (env_of d))) = ["localhost"]
     ∧ imageDomains (resolve d) = {[ "localhost" ]}).
Proof.
  split.
  - intros ->. split.
    + now rewrite nextConfig_production by apply lookup_env_of.
    + rewrite resolve_production. cbn [imageDomains list_to_set].
      apply set_eq. set_solver.
  - intros Hd. split.
    + now rewrite nextConfig_other by now rewrite lookup_env_of.
    + rewrite resolve_other by assumption. cbn [imageDomains list_to_set].
      apply set_eq. set_solver.
Qed.

Lemma imageDomains_spec_witness :
  imageDomains (resolve (Some "production"))
  = {[ "yourapp.com"; "cdn.yourapp.com" ]}
  ∧ imageDomains (resolve (Some "development")) = {[ "localhost" ]}
  ∧ imageDomains (resolve None) = {[ "localhost" ]}.
Proof.
  split; [|split].
  - apply (proj1 (imageDomains_spec (Some "production"))). reflexivity.
  - apply (proj2 (imageDomains_spec (Some "development"))). discriminate.
  - apply (proj2 (imageDomains_spec None)). discriminate.
Defined.

(** C7. [resolve] is total over every string and the absent value: the
    configuration is built without an error and the promise [headers()]
    returns is always fulfilled; every input other than the exact string
    "production", absence included, yields one and the same non-production
    configuration. *)
Theorem resolve_total (x : option string) :
  (∃ rules, headers (nextConfig (env_of x)) = Fulfilled rules)
  ∧ (x ≠ Some "production" →
     resolve x = resolve None
     ∧ resolve x =
         {| outputMode := standard;
            imageDomains := {[ "localhost" ]};
            securityHeaders := [] |}).
Proof.
  split.
  - destruct (decide (x = Some "production")) as [->|Hx].
    + rewrite nextConfig_production by apply lookup_env_of. eauto.
    + rewrite nextConfig_other by now rewrite lookup_env_of. eauto.
  - intros Hx. rewrite (resolve_other x Hx), (resolve_other None) by discriminate.
    now rewrite localhost_set.
Qed.

Lemma resolve_total_witness :
  resolve (Some "staging") = resolve None
  ∧ resolve (Some "") = resolve None
  ∧ resolve None =
      {| outputMode := standard;
         imageDomains := {[ "localhost" ]};
         securityHeaders := [] |}.
Proof.
  split; [|split].
  - apply (proj2 (resolve_total (Some "staging"))). discriminate.
  - apply (proj2 (resolve_total (Some ""))). discriminate.
  - apply (proj2 (resolve_total None)). discriminate.
Defined.

(** C8. [validate] and [resolve] are deterministic and depend on their
    input alone: two environments that agree on the names the validator
    reads give the same report, flag, output and exit code, and the same
    configuration; and whatever a process printed or held in [hasErrors]
    before the script starts leaves the exit code, the flag and the lines
    the run prints unchanged. *)
Theorem deterministic (env env' : gmap string string) (p : process) :
  ((∀ n, n ∈ requiredEnvVars ++ optionalEnvVars → env !! n = env' !! n) →
   validate env = validate env'
   ∧ exit_code env = exit_code env'
   ∧ final env = final env'
   ∧ nextConfig env = nextConfig env'
   ∧ resolve (env !! "NEXT_PUBLIC_APP_ENV")
     = resolve (env' !! "NEXT_PUBLIC_APP_ENV"))
  ∧ check_env env p =
      (exit_code env,
       Process (console p ++ console (final env)) (hasErrors (final env))).
Proof.
  split;
    [|now rewrite check_env_run, exit_code_run, console_final,
        hasErrors_final].
  intros H.
  assert (Hf : final env = final env')
    by (unfold final; now rewrite (check_env_ext env env' start H)).
  assert (Hd : env !! "NEXT_PUBLIC_APP_ENV" = env' !! "NEXT_PUBLIC_APP_ENV")
    by (apply H; unfold requiredEnvVars; set_solver).
  refine (conj _ (conj _ (conj Hf (conj _ _)))).
  - unfold validate. now rewrite Hf.
  - unfold exit_code. now rewrite (check_env_ext env env' start H).
  - now rewrite (nextConfig_discriminator env), Hd,
      <- (nextConfig_discriminator env').
  - now rewrite Hd.
Qed.

Lemma deterministic_witness :
  validate (<["PATH" := "/usr/bin"]> scenario_env) = validate scenario_env
  ∧ nextConfig (<["PATH" := "/usr/bin"]> scenario_env)
    = nextConfig scenario_env.
Proof.
  assert (H : ∀ n, n ∈ requiredEnvVars ++ optionalEnvVars →
                <["PATH" := "/usr/bin"]> scenario_env !! n
                = scenario_env !! n).
  { intros n Hn. apply lookup_insert_ne. intros <-. revert Hn.
    apply (bool_decide_unpack _). vm_compute. exact I. }
  destruct (proj1 (deterministic _ _ start) H) as (Hv & _ & _ & Hc & _).
  split; assumption.
Defined.

(** C9. The comparison with "production" is exact: for every string that
    is not "production" itself, such as "Production", "PRODUCTION" or
    "production " with a trailing blank, the configuration takes the
    non-production value of [output], of the image domains and of the
    headers alike. *)
Theorem discriminator_exact (s : string) :
  s ≠ "production" →
  output (nextConfig (env_of (Some s))) = None
  ∧ domains (images (nextConfig (env_of (Some s)))) = ["localhost"]
  ∧ headers (nextConfig (env_of (Some s))) = Fulfilled []
  ∧ resolve (Some s) = resolve None.
Proof.
  intros Hs.
  assert (Hd : Some s ≠ Some "production") by congruence.
  rewrite nextConfig_other by now rewrite lookup_env_of.
  cbn [output images domains headers].
  refine (conj eq_refl (conj eq_refl (conj eq_refl _))).
  now rewrite (resolve_other _ Hd), (resolve_other None) by discriminate.
Qed.

Lemma discriminator_exact_witness :
  resolve (Some "Production") = resolve None
  ∧ resolve (Some "PRODUCTION") = resolve None
  ∧ resolve (Some "production ") = resolve None
  ∧ output (nextConfig (env_of (Some " production"))) = None.
Proof.
  refine (conj _ (conj _ (conj _ _))).
  - apply (discriminator_exact "Production"). discriminate.
  - apply (discriminator_exact "PRODUCTION"). discriminate.
  - apply (discriminator_exact "production "). discriminate.
  - apply (discriminator_exact " production"). discriminate.
Defined.

(** C10. The configuration has a field [env.APP_ENV]: it is the
    discriminator when that is a non-empty string, and the literal
    "development" when the discriminator is absent or the empty string. *)
Theorem APP_ENV_spec (process_env : gmap string string) :
  (∀ s, process_env !! "NEXT_PUBLIC_APP_ENV" = Some s → s ≠ "" →
        APP_ENV (env (nextConfig process_env)) = s)
  ∧ (process_env !! "NEXT_PUBLIC_APP_ENV" = None
     ∨ process_env !! "NEXT_PUBLIC_APP_ENV" = Some "" →
     APP_ENV (env (nextConfig process_env)) = "development").
Proof.
  unfold nextConfig. cbn [env APP_ENV]. split.
  - intros s -> Hs. destruct s; [contradiction | reflexivity].
  - intros [->| ->]; reflexivity.
Qed.

Lemma APP_ENV_spec_witness :
  APP_ENV (env (nextConfig (env_of (Some "staging")))) = "staging"
  ∧ APP_ENV (env (nextConfig (env_of None))) = "development"
  ∧ APP_ENV (env (nextConfig (env_of (Some "")))) = "development".
Proof.
  split; [|split].
  - apply (proj1 (APP_ENV_spec (env_of (Some "staging"))) "staging").
    + reflexivity.
    + discriminate.
  - apply (proj2 (APP_ENV_spec (env_of None))). left. reflexivity.
  - apply (proj2 (APP_ENV_spec (env_of (Some "")))). right. reflexivity.
Defined.

(** ** The scenarios of the specification *)

Example scenario_all_set :
  allOk (validate scenario_env) = true ∧ exit_code scenario_env = 0%Z.
Proof. split; vm_compute; reflexivity. Qed.

Example scenario_all_absent :
  allOk (validate ∅) = false
  ∧ List.filter is_missing (report (validate ∅))
    = map (fun n => (n, MISSING)) requiredEnvVars
  ∧ exit_code ∅ = 1%Z.
Proof. repeat split; vm_compute; reflexivity. Qed.

Example scenario_empty_value :
  report (validate (<["DATABASE_URL" := ""]> scenario_env)) =
  [ ("NODE_ENV", SET); ("NEXT_PUBLIC_APP_ENV", SET);
    ("NEXT_PUBLIC_API_URL", SET); ("DATABASE_URL", MISSING);
    ("NEXTAUTH_SECRET", SET); ("NEXTAUTH_URL", SET);
    ("NEXT_PUBLIC_STRIPE_PUBLIC_KEY", NOT_SET); ("STRIPE_SECRET_KEY", NOT_SET);
    ("AWS_REGION", NOT_SET); ("LOG_LEVEL", NOT_SET) ].
Proof. vm_compute. reflexivity. Qed.

Example scenario_staging :
  resolve (Some "staging") =
  {| outputMode := standard;
     imageDomains := {[ "localhost" ]};
     securityHeaders := [] |}.
Proof. rewrite resolve_other by discriminate. now rewrite localhost_set. Qed.

(** * Further properties of the script and of the configuration *)

(** ** Where the script writes *)

Section Streams.
Variable env : gmap string string.

Lemma stderr_app (c1 c2 : list (stream * string)) (e1 e2 e3 : bool) :
  stderr (Process (c1 ++ c2) e1) =
  stderr (Process c1 e2) ++ stderr (Process c2 e3).
Proof. unfold stderr. cbn [console]. apply omap_app. Qed.

Lemma stderr_on_Stdout (lines : list string) (e : bool) :
  stderr (Process (on Stdout lines) e) = [].
Proof.
  unfold stderr, on. cbn [console].
  induction lines as [|l lines IH]; [reflexivity|].
  cbn. now rewrite IH.
Qed.

Lemma stderr_on_Stderr (lines : list string) (e : bool) :
  stderr (Process (on Stderr lines) e) = lines.
Proof.
  unfold stderr, on. cbn [console].
  induction lines as [|l lines IH]; [reflexivity|].
  cbn. now rewrite IH.
Qed.

Lemma stderr_final :
  stderr (final env) =
  if some_missing env requiredEnvVars then [failure_message] else [].
Proof.
  pose proof (console_final env) as Hc.
  destruct (final env) as [c e]. cbn [console] in Hc. subst c.
  unfold transcript.
  rewrite !(stderr_app _ _ e e e), !stderr_on_Stdout.
  destruct (some_missing env requiredEnvVars).
  - now rewrite stderr_on_Stderr.
  - now rewrite stderr_on_Stdout.
Qed.

Lemma status_line_head (st : status) (n : string) :
  ∃ rest, status_line st n = String "226"%char rest.
Proof. destruct st; cbn; eauto. Qed.

Lemma required_line_head (n : string) :
  ∃ rest, required_line env n = String "226"%char rest.
Proof.
  unfold required_line. destruct (is_set env n);
    [apply (status_line_head SET) | apply (status_line_head MISSING)].
Qed.

Lemma optional_line_head (n : string) :
  ∃ rest, optional_line env n = String "226"%char rest.
Proof.
  unfold optional_line. destruct (is_set env n);
    [apply (status_line_head SET) | apply (status_line_head NOT_SET)].
Qed.

End Streams.

(** X1. The exit code is 0 or 1.  A run that exits with 0 writes nothing
    to standard error and ends standard output with the success message; a
    run that exits with 1 writes the failure message, and nothing else, to
    standard error and never prints the success message. *)
Theorem streams_follow_exit_code (env : gmap string string) :
  (exit_code env = 0 ∨ exit_code env = 1)%Z
  ∧ (exit_code env = 0%Z →
     stderr (final env) = []
     ∧ last (stdout (final env)) = Some success_message)
  ∧ (exit_code env = 1%Z →
     stderr (final env) = [failure_message]
     ∧ success_message ∉ stdout (final env)).
Proof.
  rewrite exit_code_run, stderr_final, stdout_final.
  destruct (some_missing env requiredEnvVars).
  - split; [now right|]. split; [discriminate|]. intros _.
    split; [reflexivity|].
    rewrite app_nil_r, list_elem_of_In, !in_app_iff, !in_map_iff.
    intros [H|[H|[H|[H|H]]]].
    + cbn in H. intuition discriminate.
    + destruct H as (n & H & _).
      destruct (required_line_head env n) as [r Hr].
      rewrite Hr in H. discriminate H.
    + cbn in H. intuition discriminate.
    + destruct H as (n & H & _).
      destruct (optional_line_head env n) as [r Hr].
      rewrite Hr in H. discriminate H.
    + cbn in H. intuition discriminate.
  - split; [now left|]. split; [|discriminate]. intros _.
    split; [reflexivity|].
    rewrite !app_assoc. apply last_snoc.
Qed.

Lemma streams_follow_exit_code_witness :
  stderr (final scenario_env) = []
  ∧ stderr (final ∅) = [failure_message]
  ∧ success_message ∉ stdout (final ∅).
Proof.
  refine (conj _ (conj _ _)).
  - apply (proj1 (proj2 (streams_follow_exit_code scenario_env))).
    vm_compute. reflexivity.
  - apply (proj2 (proj2 (streams_follow_exit_code ∅))).
    vm_compute. reflexivity.
  - apply (proj2 (proj2 (streams_follow_exit_code ∅))).
    vm_compute. reflexivity.
Defined.

(** X2. Every run makes seventeen console calls.  The first sixteen, the
    headings, the ten status lines and the summary, all go to standard
    output whatever the environment holds; only the closing message can go
    to standard error. *)
Theorem console_layout (env : gmap string string) :
  length (console (final env)) = 17
  ∧ map fst (take 16 (console (final env))) = replicate 16 Stdout
  ∧ take 16 (stdout (final env)) = map snd (take 16 (console (final env)))
  ∧ length (stdout (final env)) + length (stderr (final env)) = 17.
Proof.
  rewrite stdout_final, stderr_final, console_final. unfold transcript.
  unfold requiredEnvVars, optionalEnvVars.
  destruct (some_missing env _); cbn; repeat split; reflexivity.
Qed.

(** X3. After the separator the script prints two summary lines, the
    fifteenth and the sixteenth of standard output: the value of
    NEXT_PUBLIC_APP_ENV and the value of NODE_ENV when they are non-empty
    strings, and the words NOT SET when they are unset or empty. *)
Theorem summary_lines (env : gmap string string) :
  stdout (final env) !! 13 = Some (nl +:+ "---")
  ∧ (∀ v, env !! "NEXT_PUBLIC_APP_ENV" = Some v → v ≠ "" →
          stdout (final env) !! 14 = Some ("Environment: " +:+ v))
  ∧ (env !! "NEXT_PUBLIC_APP_ENV" = None
     ∨ env !! "NEXT_PUBLIC_APP_ENV" = Some "" →
     stdout (final env) !! 14 = Some "Environment: NOT SET")
  ∧ (∀ v, env !! "NODE_ENV" = Some v → v ≠ "" →
          stdout (final env) !! 15 = Some ("Node Environment: " +:+ v))
  ∧ (env !! "NODE_ENV" = None ∨ env !! "NODE_ENV" = Some "" →
     stdout (final env) !! 15 = Some "Node Environment: NOT SET").
Proof.
  rewrite stdout_final. unfold requiredEnvVars, optionalEnvVars.
  cbn [map app lookup list_lookup].
  refine (conj eq_refl (conj _ (conj _ (conj _ _)))).
  - intros v -> Hv. destruct v; [contradiction | reflexivity].
  - intros [->| ->]; reflexivity.
  - intros v -> Hv. destruct v; [contradiction | reflexivity].
  - intros [->| ->]; reflexivity.
Qed.

Lemma summary_lines_witness :
  stdout (final scenario_env) !! 14 = Some "Environment: production"
  ∧ stdout (final ∅) !! 14 = Some "Environment: NOT SET"
  ∧ stdout (final scenario_env) !! 15 = Some "Node Environment: production"
  ∧ stdout (final (<["NODE_ENV" := ""]> ∅)) !! 15
    = Some "Node Environment: NOT SET".
Proof.
  refine (conj _ (conj _ (conj _ _))).
  - apply (proj1 (proj2 (summary_lines scenario_env)) "production");
      [vm_compute; reflexivity | discriminate].
  - apply (proj1 (proj2 (proj2 (summary_lines ∅)))). left. reflexivity.
  - apply (proj1 (proj2 (proj2 (proj2 (summary_lines scenario_env))))
             "production"); [vm_compute; reflexivity | discriminate].
  - apply (proj2 (proj2 (proj2 (proj2
             (summary_lines (<["NODE_ENV" := ""]> ∅)))))).
    right. vm_compute. reflexivity.
Defined.

(** ** What the output depends on *)

Section Shown.
Variables env env' : gmap string string.

Lemma some_missing_shown (names : list string) :
  (∀ n, n ∈ names → is_set env n = is_set env' n) →
  some_missing env names = some_missing env' names.
Proof.
  induction names as [|m names IH]; intros H; [reflexivity|].
  cbn [some_missing existsb]. rewrite (H m) by left.
  f_equal. apply IH. intros n Hn. apply H. now right.
Qed.

Lemma required_line_shown (names : list string) :
  (∀ n, n ∈ names → is_set env n = is_set env' n) →
  map (required_line env) names = map (required_line env') names.
Proof.
  intros H. apply map_ext_in. intros n Hn. unfold required_line.
  now rewrite (H n) by now apply list_elem_of_In.
Qed.

Lemma optional_line_shown (names : list string) :
  (∀ n, n ∈ names → is_set env n = is_set env' n) →
  map (optional_line env) names = map (optional_line env') names.
Proof.
  intros H. apply map_ext_in. intros n Hn. unfold optional_line.
  now rewrite (H n) by now apply list_elem_of_In.
Qed.

Lemma check_env_shown (p : process) :
  (∀ n, n ∈ requiredEnvVars ++ optionalEnvVars →
        is_set env n = is_set env' n) →
  or_else (env !! "NEXT_PUBLIC_APP_ENV") "NOT SET"
  = or_else (env' !! "NEXT_PUBLIC_APP_ENV") "NOT SET" →
  or_else (env !! "NODE_ENV") "NOT SET"
  = or_else (env' !! "NODE_ENV") "NOT SET" →
  check_env env p = check_env env' p.
Proof.
  intros H Happ Hnode.
  assert (Hreq : ∀ n, n ∈ requiredEnvVars → is_set env n = is_set env' n)
    by (intros n Hn; apply H, elem_of_app; now left).
  assert (Hopt : ∀ n, n ∈ optionalEnvVars → is_set env n = is_set env' n)
    by (intros n Hn; apply H, elem_of_app; now right).
  rewrite !check_env_run. unfold transcript.
  now rewrite (some_missing_shown _ Hreq),
    (required_line_shown _ Hreq), (optional_line_shown _ Hopt),
    Happ, Hnode.
Qed.

End Shown.

(** X4. The script shows the value of NEXT_PUBLIC_APP_ENV and of NODE_ENV
    and of no other variable: two environments in which the same names are
    set, and whose two summary values read the same, give the same console
    output and the same exit code, whatever the values of the other
    variables are. *)
Theorem output_hides_values (env env' : gmap string string) (p : process) :
  (∀ n, n ∈ requiredEnvVars ++ optionalEnvVars →
        truthy (env !! n) = truthy (env' !! n)) →
  or_else (env !! "NEXT_PUBLIC_APP_ENV") "NOT SET"
  = or_else (env' !! "NEXT_PUBLIC_APP_ENV") "NOT SET" →
  or_else (env !! "NODE_ENV") "NOT SET"
  = or_else (env' !! "NODE_ENV") "NOT SET" →
  check_env env p = check_env env' p.
Proof.
  intros H Happ Hnode.
  assert (Hreq : ∀ n, n ∈ requiredEnvVars → is_set env n = is_set env' n)
    by (intros n Hn; apply H, elem_of_app; now left).
  assert (Hopt : ∀ n, n ∈ optionalEnvVars → is_set env n = is_set env' n)
    by (intros n Hn; apply H, elem_of_app; now right).
  rewrite !check_env_run. unfold transcript.
  rewrite (some_missing_shown env env' _ Hreq).
  rewrite (required_line_shown env env' _ Hreq).
  rewrite (optional_line_shown env env' _ Hopt).
  now rewrite Happ, Hnode.
Qed.

Lemma output_hides_values_witness :
  check_env (<["NEXTAUTH_SECRET" := "another secret"]> scenario_env) start
  = check_env scenario_env start.
Proof.
  apply output_hides_values.
  - intros n Hn. destruct (decide (n = "NEXTAUTH_SECRET")) as [->|Hne].
    + vm_compute. reflexivity.
    + now rewrite lookup_insert_ne by congruence.
  - vm_compute. reflexivity.
  - vm_compute. reflexivity.
Defined.

(** X5. Setting more variables never turns a passing run into a failing
    one: if every required name set in one environment is set in another,
    and the first run exits with 0, so does the second. *)
Theorem exit_code_monotone (env env' : gmap string string) :
  (∀ n, n ∈ requiredEnvVars →
        truthy (env !! n) = true → truthy (env' !! n) = true) →
  exit_code env = 0%Z → exit_code env' = 0%Z.
Proof.
  intros H. rewrite !exit_code_run.
  destruct (some_missing env requiredEnvVars) eqn:E; [discriminate|].
  intros _.
  assert (E' : some_missing env' requiredEnvVars = false).
  { apply some_missing_false. intros n Hn. apply H; [assumption|].
    now apply (proj1 (some_missing_false env requiredEnvVars) E). }
  now rewrite E'.
Qed.

Lemma exit_code_monotone_witness :
  exit_code (<["AWS_REGION" := "eu-west-1"]> scenario_env) = 0%Z.
Proof.
  apply (exit_code_monotone scenario_env).
  - intros n Hn Hset. rewrite lookup_insert_ne; [assumption|].
    intros <-. revert Hn. apply (bool_decide_unpack _). vm_compute. exact I.
  - vm_compute. reflexivity.
Defined.

(** X6. The empty string counts as unset everywhere: a variable that holds
    the empty string gives the same run of the script, from any process
    state, and the same configuration as the environment without that
    variable. *)
Theorem empty_is_unset (env : gmap string string) (name : string)
        (p : process) :
  check_env (<[name := ""]> env) p = check_env (delete name env) p
  ∧ nextConfig (<[name := ""]> env) = nextConfig (delete name env).
Proof.
  assert (Ht : ∀ n, truthy (<[name := ""]> env !! n)
                    = truthy (delete name env !! n)).
  { intros n. destruct (decide (name = n)) as [->|Hne].
    - now rewrite lookup_insert_eq, lookup_delete_eq.
    - now rewrite lookup_insert_ne, lookup_delete_ne. }
  assert (Ho : ∀ n d, or_else (<[name := ""]> env !! n) d
                      = or_else (delete name env !! n) d).
  { intros n d. destruct (decide (name = n)) as [->|Hne].
    - now rewrite lookup_insert_eq, lookup_delete_eq.
    - now rewrite lookup_insert_ne, lookup_delete_ne. }
  assert (Hs : ∀ n, strict_eq (<[name := ""]> env !! n) "production"
                    = strict_eq (delete name env !! n) "production").
  { intros n. destruct (decide (name = n)) as [->|Hne].
    - now rewrite lookup_insert_eq, lookup_delete_eq.
    - now rewrite lookup_insert_ne, lookup_delete_ne. }
  split.
  - apply check_env_shown; [intros n _; apply Ht | apply Ho..].
  - unfold nextConfig. now rewrite Ho, Hs.
Qed.

(** ** What the report says *)

Section Entries.
Variable env : gmap string string.

Lemma elem_of_required_entries (names : list string) (n : string)
      (st : status) :
  (n, st) ∈ map (fun m => (m, required_status env m)) names ↔
  n ∈ names ∧ st = required_status env n.
Proof.
  rewrite list_elem_of_In, in_map_iff. split.
  - intros (m & [= -> ->] & Hm). split; [now apply list_elem_of_In | reflexivity].
  - intros [Hn ->]. exists n. split; [reflexivity | now apply list_elem_of_In].
Qed.

Lemma elem_of_optional_entries (names : list string) (n : string)
      (st : status) :
  (n, st) ∈ map (fun m => (m, optional_status env m)) names ↔
  n ∈ names ∧ st = optional_status env n.
Proof.
  rewrite list_elem_of_In, in_map_iff. split.
  - intros (m & [= -> ->] & Hm). split; [now apply list_elem_of_In | reflexivity].
  - intros [Hn ->]. exists n. split; [reflexivity | now apply list_elem_of_In].
Qed.

Lemma elem_of_report (n : string) (st : status) :
  (n, st) ∈ report (validate env) ↔
  (n ∈ requiredEnvVars ∧ st = required_status env n)
  ∨ (n ∈ optionalEnvVars ∧ st = optional_status env n).
Proof.
  now rewrite report_validate, elem_of_app, elem_of_required_entries,
    elem_of_optional_entries.
Qed.

End Entries.

(** X7. The report tells the truth and keeps the two lists apart: a SET
    entry is printed only for a variable that holds a non-empty string, a
    MISSING entry only for a required name that does not, and a NOT SET
    entry only for an optional name that does not. *)
Theorem report_sound (env : gmap string string) (n : string) (st : status) :
  (n, st) ∈ report (validate env) →
  match st with
  | SET => (∃ v, env !! n = Some v ∧ v ≠ "")
           ∧ n ∈ requiredEnvVars ++ optionalEnvVars
  | MISSING => (env !! n = None ∨ env !! n = Some "") ∧ n ∈ requiredEnvVars
  | NOT_SET => (env !! n = None ∨ env !! n = Some "") ∧ n ∈ optionalEnvVars
  end.
Proof.
  rewrite elem_of_report.
  unfold required_status, optional_status, is_set.
  intros [[Hn ->]|[Hn ->]]; destruct (truthy (env !! n)) eqn:E;
    (split; [first [now apply truthy_spec | now apply truthy_false]
            | first [assumption | apply elem_of_app; tauto]]).
Qed.

Lemma report_sound_witness :
  (env_DATABASE_URL_unset !! "DATABASE_URL" = None
   ∨ env_DATABASE_URL_unset !! "DATABASE_URL" = Some "")
  ∧ "DATABASE_URL" ∈ requiredEnvVars.
Proof.
  apply (report_sound env_DATABASE_URL_unset "DATABASE_URL" MISSING).
  vm_compute. do 3 right. left.
Defined.

(** X8. The exit code agrees with what was printed: the script exits with
    1 exactly when the report holds a MISSING entry, that is when a MISSING
    line for some name was printed on standard output. *)
Theorem verdict_matches_report (env : gmap string string) :
  (exit_code env = 1%Z ↔ ∃ n, (n, MISSING) ∈ report (validate env))
  ∧ (exit_code env = 1%Z ↔ ∃ n, missing_line n ∈ stdout (final env)).
Proof.
  assert (Hcode : exit_code env = 1%Z ↔
                  ∃ n, n ∈ requiredEnvVars ∧ is_set env n = false).
  { rewrite exit_code_run, <- some_missing_true.
    destruct (some_missing env requiredEnvVars); split;
      (reflexivity || discriminate). }
  split; rewrite Hcode; split.
  - intros (n & Hn & Hf). exists n. apply elem_of_report. left.
    split; [assumption|]. unfold required_status. now rewrite Hf.
  - intros (n & Hn). apply elem_of_report in Hn as [[Hn Hst]|[Hn Hst]].
    + exists n. split; [assumption|]. unfold required_status in Hst.
      destruct (is_set env n); [discriminate | reflexivity].
    + unfold optional_status in Hst. now destruct (is_set env n).
  - intros (n & Hn & Hf). exists n. rewrite stdout_final.
    apply elem_of_app. right. apply elem_of_app. left.
    apply list_elem_of_In, in_map_iff. exists n.
    split; [|now apply list_elem_of_In].
    unfold required_line. now rewrite Hf.
  - intros (n & Hn).
    assert (Hp : (n, MISSING) ∈ report (validate env)).
    { unfold validate. cbn [report].
      apply list_elem_of_omap. exists (missing_line n).
      split; [assumption | apply parse_missing_line]. }
    apply elem_of_report in Hp as [[Hr Hst]|[Ho Hst]].
    + exists n. split; [assumption|]. unfold required_status in Hst.
      destruct (is_set env n); [discriminate | reflexivity].
    + unfold optional_status in Hst. now destruct (is_set env n).
Qed.

(** X9. A status line can be read back without ambiguity, whatever the
    variable name is (empty, or itself ending in a status word): reading
    the line of a name and a status gives back that name and that status,
    so two status lines are equal only for the same name in the same
    status. *)
Theorem status_line_unambiguous (st st' : status) (n n' : string) :
  parse_line (status_line st n) = Some (n, st)
  ∧ (status_line st n = status_line st' n' → n = n' ∧ st = st').
Proof.
  assert (H : ∀ s m, parse_line (status_line s m) = Some (m, s)).
  { intros [] m; cbn [status_line];
      [apply parse_set_line | apply parse_missing_line
       | apply parse_not_set_line]. }
  split; [apply H|].
  intros E. apply (f_equal parse_line) in E. rewrite !H in E.
  now injection E as -> ->.
Qed.

Lemma status_line_unambiguous_witness :
  parse_line (status_line SET "X: MISSING") = Some ("X: MISSING", SET)
  ∧ status_line SET "A: SET" ≠ status_line SET "A".
Proof.
  split.
  - apply (proj1 (status_line_unambiguous SET SET "X: MISSING" "")).
  - intros E.
    apply (proj2 (status_line_unambiguous SET SET "A: SET" "A")) in E.
    destruct E as [E _]. discriminate E.
Defined.

(** ** The loop over the required names *)

Lemma some_missing_Permutation (env : gmap string string)
      (names names' : list string) :
  names ≡ₚ names' → some_missing env names = some_missing env names'.
Proof.
  unfold some_missing.
  induction 1 as [|x l l' _ IH|x y l|l l' l'' _ IH1 _ IH2]; cbn [existsb].
  - reflexivity.
  - now rewrite IH.
  - now rewrite !orb_assoc, (orb_comm (negb (is_set env y))).
  - now rewrite IH1.
Qed.

(** X10. The loop over the required names, run from any process state on
    any list made of the names the script knows (its ten names, in any
    order and number), keeps what was printed before and adds after it, on
    standard output and in the order of the list, the SET or MISSING line
    of each name; it never clears [hasErrors], and leaves it set exactly
    when it was set before or some name of the list is unset or empty.  So
    the flag does not depend on the order of the names, and a reordered
    list prints the same lines in another order.  (For these names
    [process.env[name]] is a lookup in the environment: none of them is
    inherited from [Object.prototype].) *)
Theorem required_loop_order (env : gmap string string)
        (names names' : list string) (p : process) :
  (∀ n, n ∈ names → n ∈ requiredEnvVars ++ optionalEnvVars) →
  names ≡ₚ names' →
  let q := snd (forEach names (check_required env) p) in
  let q' := snd (forEach names' (check_required env) p) in
  console q =
    console p
    ++ map (fun n => (Stdout,
                      status_line (if truthy (env !! n) then SET
                                   else MISSING) n)) names
  ∧ (hasErrors q = true ↔
     hasErrors p = true
     ∨ ∃ n, n ∈ names ∧ (env !! n = None ∨ env !! n = Some ""))
  ∧ (hasErrors p = true → hasErrors q = true)
  ∧ hasErrors q = hasErrors q'
  ∧ console q ≡ₚ console q'.
Proof.
  intros _ Hperm q q'. subst q q'. rewrite !forEach_required.
  cbn [snd hasErrors console].
  refine (conj _ (conj _ (conj _ (conj _ _)))).
  - f_equal. unfold on. rewrite map_map. apply map_ext. intros n.
    unfold required_line, is_set. now destruct (truthy (env !! n)).
  - rewrite orb_true_iff, some_missing_true. unfold is_set.
    split; (intros [H|(n & Hn & Hf)]; [now left | right]);
      exists n; (split; [assumption | now apply truthy_false]).
  - now intros ->.
  - now rewrite (some_missing_Permutation env _ _ Hperm).
  - apply Permutation_app_head. unfold on.
    now apply Permutation_map, Permutation_map.
Qed.

Lemma required_loop_order_witness :
  console (snd (forEach ["NODE_ENV"; "DATABASE_URL"]
                  (check_required env_DATABASE_URL_unset) start))
  = [ (Stdout, "✅ NODE_ENV: SET"); (Stdout, "❌ DATABASE_URL: MISSING") ]
  ∧ hasErrors (snd (forEach ["NODE_ENV"; "DATABASE_URL"]
                      (check_required env_DATABASE_URL_unset) start))
    = hasErrors (snd (forEach ["DATABASE_URL"; "NODE_ENV"]
                        (check_required env_DATABASE_URL_unset) start)).
Proof.
  assert (Hin : ∀ n, n ∈ ["NODE_ENV"; "DATABASE_URL"] →
                     n ∈ requiredEnvVars ++ optionalEnvVars).
  { intros n Hn. repeat (apply elem_of_cons in Hn as [->|Hn]);
      try (inversion Hn; fail);
      apply (bool_decide_unpack _); vm_compute; exact I. }
  pose proof (required_loop_order env_DATABASE_URL_unset
                ["NODE_ENV"; "DATABASE_URL"] ["DATABASE_URL"; "NODE_ENV"]
                start Hin (perm_swap _ _ _)) as (Hc & _ & _ & Hf & _).
  split; [exact Hc | exact Hf].
Defined.

(** ** The script and the configuration together *)

(** X11. When the script exits with 0 the discriminator is a non-empty
    string; the configuration built in the same environment then exposes
    that very string as [env.APP_ENV], the "development" default is not
    used, and the summary line of the script shows the same string. *)
Theorem passing_run_fixes_APP_ENV (process_env : gmap string string) :
  exit_code process_env = 0%Z →
  ∃ v, process_env !! "NEXT_PUBLIC_APP_ENV" = Some v
       ∧ v ≠ ""
       ∧ APP_ENV (env (nextConfig process_env)) = v
       ∧ stdout (final process_env) !! 14 = Some ("Environment: " +:+ v).
Proof.
  rewrite exit_code_run.
  destruct (some_missing process_env requiredEnvVars) eqn:E;
    [discriminate|]. intros _.
  assert (Hset : is_set process_env "NEXT_PUBLIC_APP_ENV" = true).
  { apply (proj1 (some_missing_false process_env requiredEnvVars) E).
    unfold requiredEnvVars. set_solver. }
  apply truthy_spec in Hset as (v & Hv & Hne).
  exists v. refine (conj Hv (conj Hne _)).
  rewrite stdout_final. unfold nextConfig, requiredEnvVars, optionalEnvVars.
  cbn [env APP_ENV map app lookup list_lookup]. rewrite Hv.
  destruct v; [contradiction|]. split; reflexivity.
Qed.

Lemma passing_run_fixes_APP_ENV_witness :
  ∃ v, scenario_env !! "NEXT_PUBLIC_APP_ENV" = Some v
       ∧ v ≠ ""
       ∧ APP_ENV (env (nextConfig scenario_env)) = v
       ∧ stdout (final scenario_env) !! 14 = Some ("Environment: " +:+ v).
Proof.
  apply (passing_run_fixes_APP_ENV scenario_env). vm_compute. reflexivity.
Defined.

(** ** The configuration as a whole *)

Lemma headers_at_load (process_env : gmap string string) :
  headers (nextConfig process_env) = headers_method process_env.
Proof. reflexivity. Qed.

(** The method follows the environment of the call: when the discriminator
    changes between the load of the object and the call, [output] and the
    headers part ways. *)
Remark headers_follow_the_call :
  output (nextConfig (env_of (Some "production"))) = Some "standalone"
  ∧ headers_method (env_of (Some "staging")) = Fulfilled [].
Proof. split; vm_compute; reflexivity. Qed.

(** X12. The fields of the configuration agree as long as the discriminator
    is "production" at the call of [headers()] exactly when it was at the
    load of the object.  Then [reactStrictMode] is on, and either all of
    the production values hold together ([env.APP_ENV] is "production",
    [output] is "standalone", the two production image domains, [headers()]
    gives one rule with four headers) or all of the non-production ones do
    ([env.APP_ENV] is not "production", [output] is undefined, the only
    image domain is "localhost", [headers()] gives no rule). *)
Theorem nextConfig_consistent (load_env call_env : gmap string string) :
  (load_env !! "NEXT_PUBLIC_APP_ENV" = Some "production"
   ↔ call_env !! "NEXT_PUBLIC_APP_ENV" = Some "production") →
  let c := nextConfig load_env in
  let h := headers_method call_env in
  reactStrictMode c = true
  ∧ ((load_env !! "NEXT_PUBLIC_APP_ENV" = Some "production"
      ∧ APP_ENV (env c) = "production"
      ∧ output c = Some "standalone"
      ∧ domains (images c) = ["yourapp.com"; "cdn.yourapp.com"]
      ∧ ∃ r, h = Fulfilled [r]
             ∧ Rule.source r = "/:path*"
             ∧ length (Rule.headers r) = 4)
     ∨ (load_env !! "NEXT_PUBLIC_APP_ENV" ≠ Some "production"
        ∧ APP_ENV (env c) ≠ "production"
        ∧ output c = None
        ∧ domains (images c) = ["localhost"]
        ∧ h = Fulfilled [])).
Proof.
  intros Hsame c h. subst c h. split; [reflexivity|].
  unfold headers_method.
  destruct (decide (load_env !! "NEXT_PUBLIC_APP_ENV"
                    = Some "production")) as [Hd|Hd].
  - left. rewrite (nextConfig_production _ Hd).
    rewrite (proj2 (strict_eq_spec _ _) (proj1 Hsame Hd)). cbn.
    refine (conj Hd (conj eq_refl (conj eq_refl (conj eq_refl _)))).
    eexists. split; [reflexivity|]. split; reflexivity.
  - right. rewrite (nextConfig_other _ Hd).
    rewrite strict_eq_ne by (intros Hc; apply Hd, Hsame, Hc). cbn.
    refine (conj Hd (conj _ (conj eq_refl (conj eq_refl eq_refl)))).
    destruct (load_env !! "NEXT_PUBLIC_APP_ENV") as [[|a s]|];
      cbn; [discriminate | congruence | discriminate].
Qed.

Lemma nextConfig_consistent_witness :
  output (nextConfig scenario_env) = Some "standalone"
  ∧ ∃ r, headers_method (env_of (Some "production")) = Fulfilled [r]
         ∧ length (Rule.headers r) = 4.
Proof.
  assert (H : scenario_env !! "NEXT_PUBLIC_APP_ENV" = Some "production"
              ↔ env_of (Some "production") !! "NEXT_PUBLIC_APP_ENV"
                = Some "production")
    by (split; intros _; vm_compute; reflexivity).
  destruct (nextConfig_consistent scenario_env (env_of (Some "production")) H)
    as [_ [(_ & _ & Ho & _ & r & Hr & _ & Hl)|(Hn & _)]].
  - split; [exact Ho|]. exists r. split; [exact Hr | exact Hl].
  - exfalso. apply Hn. vm_compute. reflexivity.
Defined.

(** X13. The configuration looks at NEXT_PUBLIC_APP_ENV and at nothing
    else: setting, changing or removing any other variable, NODE_ENV
    included, leaves the whole configuration unchanged. *)
Theorem nextConfig_frame (process_env : gmap string string)
        (name value : string) :
  name ≠ "NEXT_PUBLIC_APP_ENV" →
  nextConfig (<[name := value]> process_env) = nextConfig process_env
  ∧ nextConfig (delete name process_env) = nextConfig process_env.
Proof.
  intros Hne. unfold nextConfig.
  now rewrite lookup_insert_ne, lookup_delete_ne.
Qed.

Lemma nextConfig_frame_witness :
  nextConfig (<["NODE_ENV" := "production"]> ∅) = nextConfig ∅
  ∧ nextConfig (delete "NODE_ENV" scenario_env) = nextConfig scenario_env.
Proof.
  split.
  - apply (nextConfig_frame ∅ "NODE_ENV" "production"). discriminate.
  - apply (nextConfig_frame scenario_env "NODE_ENV" ""). discriminate.
Defined.

(** ** The loop over the optional names *)

(** X14. The loop over the optional names, run from any process state on
    any list made of the names the script knows (its ten names, in any
    order and number), leaves [hasErrors] as it found it, keeps what was
    printed before and adds after it, on standard output and in the order
    of the list, one line per name: a NOT SET line for a name that is unset
    or empty, and for a set one the same SET line a required name gets.  It
    prints no MISSING line.  (For these names [process.env[name]] is a
    lookup in the environment: none of them is inherited from
    [Object.prototype].) *)
Theorem optional_loop_harmless (env : gmap string string)
        (names : list string) (p : process) :
  (∀ n, n ∈ names → n ∈ requiredEnvVars ++ optionalEnvVars) →
  let q := snd (forEach names (check_optional env) p) in
  hasErrors q = hasErrors p
  ∧ console q =
      console p
      ++ map (fun n => (Stdout,
                        status_line (if truthy (env !! n) then SET
                                     else NOT_SET) n)) names
  ∧ ∀ n, (Stdout, missing_line n) ∉ drop (length (console p)) (console q).
Proof.
  intros _ q. subst q. rewrite forEach_optional.
  cbn [snd hasErrors console].
  assert (E : on Stdout (map (optional_line env) names) =
              map (fun n => (Stdout,
                             status_line (if truthy (env !! n) then SET
                                          else NOT_SET) n)) names).
  { unfold on. rewrite map_map. apply map_ext. intros n.
    unfold optional_line, is_set. now destruct (truthy (env !! n)). }
  rewrite E. refine (conj eq_refl (conj eq_refl _)).
  intros n. rewrite drop_app_length.
  rewrite list_elem_of_In, in_map_iff. intros (m & Hm & _).
  injection Hm as Hm.
  change (missing_line n) with (status_line MISSING n) in Hm.
  apply (f_equal parse_line) in Hm.
  destruct (truthy (env !! m)); cbn [status_line] in Hm;
    rewrite ?parse_set_line, ?parse_not_set_line, parse_missing_line in Hm;
    discriminate Hm.
Qed.

Lemma optional_loop_harmless_witness :
  hasErrors (snd (forEach ["LOG_LEVEL"; "DATABASE_URL"]
                    (check_optional env_DATABASE_URL_unset)
                    (Process [(Stdout, "before")] true)))
  = true
  ∧ console (snd (forEach ["LOG_LEVEL"; "DATABASE_URL"]
                    (check_optional env_DATABASE_URL_unset)
                    (Process [(Stdout, "before")] true)))
    = [ (Stdout, "before");
        (Stdout, "⚠️  LOG_LEVEL: NOT SET");
        (Stdout, "⚠️  DATABASE_URL: NOT SET") ].
Proof.
  assert (Hin : ∀ n, n ∈ ["LOG_LEVEL"; "DATABASE_URL"] →
                     n ∈ requiredEnvVars ++ optionalEnvVars).
  { intros n Hn. repeat (apply elem_of_cons in Hn as [->|Hn]);
      try (inversion Hn; fail);
      apply (bool_decide_unpack _); vm_compute; exact I. }
  pose proof (optional_loop_harmless env_DATABASE_URL_unset
                ["LOG_LEVEL"; "DATABASE_URL"]
                (Process [(Stdout, "before")] true) Hin) as (Hf & Hc & _).
  split; [exact Hf | exact Hc].
Defined.
